(** * task_manager: the settings bitset, the task container and the
      scheduler's result store, modelled after [src/task_manager.h]. *)

From Stdlib Require Import ZArith Lia Bool.
From stdpp Require Import gmap strings list.

Local Open Scope Z_scope.

(** ** The preprocessor macros of the header

    [settings_] is a [uint16_t]; every operand of [&], [|] and [~] is
    promoted to [int] first, and the compound assignments [|=] and [&=]
    convert the [int] result back to [uint16_t].  On [int] the complement
    [~x] is [-x-1], which is [Z.lnot]. *)
Module Macros.

Definition to_uint16 (x : Z) : Z := x mod 2 ^ 16.

(** [#define EVAL(x, y) ((x & y) == (y))] *)
Definition EVAL (x y : Z) : bool := Z.land x y =? y.

(** [#define SET_ON(x, y) x |= y] *)
Definition SET_ON (x y : Z) : Z := to_uint16 (Z.lor x y).

(** [#define SET_OFF(x, y) x &= ~y] *)
Definition SET_OFF (x y : Z) : Z := to_uint16 (Z.land x (Z.lnot y)).

End Macros.

(** ** [enum tm_settings] and the [settings_] member *)
Module Settings.
Import Macros.

(** An unscoped enumeration: a value is an integer mask, the two
    enumerators are the named ones. *)
Definition tm_settings := Z.

Definition KILL_ON_EMPTY : tm_settings := 1.
Definition IN_ORDER : tm_settings := Z.shiftl 1 1.

(** The two policy flags, as a type of their own for statements that
    range over "a flag". *)
Inductive flag := FKillOnEmpty | FInOrder.

Definition mask_of (f : flag) : tm_settings :=
  match f with
  | FKillOnEmpty => KILL_ON_EMPTY
  | FInOrder => IN_ORDER
  end.

Definition other (f : flag) : flag :=
  match f with
  | FKillOnEmpty => FInOrder
  | FInOrder => FKillOnEmpty
  end.

(** [uint16_t settings_ = 0 | (~KILL_ON_EMPTY | IN_ORDER);] *)
Definition settings_default : Z :=
  to_uint16 (Z.lor 0 (Z.lor (Z.lnot KILL_ON_EMPTY) IN_ORDER)).

(** [void set(tm_settings t, bool val)]:
    [if (val) SET_ON(settings_, t); else SET_OFF(settings_, ~t);] *)
Definition set (t : tm_settings) (val : bool) (settings_ : Z) : Z :=
  if val then SET_ON settings_ t
  else SET_OFF settings_ (Z.lnot t).

(** [bool get(tm_settings mask) { return EVAL(settings_, mask); }] *)
Definition get (mask : tm_settings) (settings_ : Z) : bool :=
  EVAL settings_ mask.

(** A value a [uint16_t] can hold. *)
Definition is_uint16 (s : Z) : Prop := 0 <= s < 2 ^ 16.

End Settings.

(** ** [enum task_settings], [struct retype] and [struct task] *)
Module Task.

Inductive task_settings := AFTER | POOL | ID.

(** The enumerators' values: [AFTER = 0], [POOL = 1], [ID = -1]. *)
Definition task_settings_val (k : task_settings) : Z :=
  match k with
  | AFTER => 0
  | POOL => 1
  | ID => -1
  end.

Definition task_settings_of_val (z : Z) : option task_settings :=
  if z =? 0 then Some AFTER
  else if z =? 1 then Some POOL
  else if z =? -1 then Some ID
  else None.

#[global] Instance task_settings_eq_dec : EqDecision task_settings.
Proof. solve_decision. Defined.

#[global] Instance task_settings_countable : Countable task_settings.
Proof.
  apply (inj_countable task_settings_val task_settings_of_val).
  intros []; reflexivity.
Defined.

Record retype := { ret : string; err : Z }.

(** [func] is a [std::function<retype()>]; the bodies of submitted
    functions are outside the scheduler, so a call is a function of no
    argument producing the pair. *)
Record task := {
  name : string;
  func : unit -> retype;
  settings : gmap task_settings string;
  id : Z
}.

(** The default member initialiser of [settings]:
    [{ {AFTER, ""}, {POOL, name} }]. *)
Definition default_task_settings (n : string) : gmap task_settings string :=
  <[POOL := n]> (<[AFTER := EmptyString]> ∅).

(** Aggregate initialisation of a [task] in member order.  A member the
    initialiser list stops short of takes its default member
    initialiser: [task{n, f}] gives [settings] its default and [id] its
    [-1]; [task{n, f, s}] takes [s] as the whole map. *)
Definition make_task (n : string) (f : unit -> retype)
    (s : option (gmap task_settings string)) : task :=
  {| name := n;
     func := f;
     settings := match s with
                 | Some m => m
                 | None => default_task_settings n
                 end;
     id := -1 |}.

(** "The ID of the task, will be overwritten by the task manager": the
    same task with [id] replaced. *)
Definition with_id (t : task) (i : Z) : task :=
  {| name := name t; func := func t; settings := settings t; id := i |}.

(** [settings.find(k)]: the entry, when there is one. *)
Definition setting_find (t : task) (k : task_settings) : option string :=
  settings t !! k.

(** [settings[k]]: [std::unordered_map::operator[]] yields a
    default-constructed (empty) string for a missing key. *)
Definition setting_index (t : task) (k : task_settings) : string :=
  default EmptyString (settings t !! k).

(** The caller "explicitly supplied a target pool" when the settings
    handed to the initialiser list carry a [POOL] entry. *)
Definition supplies_pool (s : option (gmap task_settings string)) : bool :=
  match s with
  | Some m => bool_decide (is_Some (m !! POOL))
  | None => false
  end.

End Task.

(** ** The data members of [class task_manager] *)
Module Manager.
Import Task.

Record task_manager := {
  queue_ : list task;
  done_ : list string;
  pools_ : gmap string (gmap Z string);
  pool_ntIDs : gmap string Z;
  is_paused_ : bool;
  stop_ : bool;
  settings_ : Z
}.

(** The default member initialisers: empty containers,
    [is_paused_ = true], [stop_ = false] and the [settings_] word. *)
Definition fresh : task_manager :=
  {| queue_ := [];
     done_ := [];
     pools_ := ∅;
     pool_ntIDs := ∅;
     is_paused_ := true;
     stop_ := false;
     settings_ := Settings.settings_default |}.

(** The five user-assignable callbacks; a run records which were called,
    and with what. *)
Inductive hook_call :=
  | task_start_callback (t : task) (wid : Z)
  | task_stop_callback (t : task) (wid : Z)
  | task_fail_callback (t : task) (wid : Z) (e : Z)
  | worker_start_callback (wid : Z)
  | worker_stop_callback (wid : Z).

End Manager.

(** ** The result store

    [clear_pool], [pools] and [pool] are declared in the header; their
    bodies, and the worker's publish step that fills the pools, are in a
    translation unit that is not part of the sources at hand. *)
Module Store.
Import Task Manager.

Definition with_pools (m : task_manager) (ps : gmap string (gmap Z string))
    : task_manager :=
  {| queue_ := queue_ m; done_ := done_ m; pools_ := ps;
     pool_ntIDs := pool_ntIDs m; is_paused_ := is_paused_ m;
     stop_ := stop_ m; settings_ := settings_ m |}.

Definition with_pool_ntIDs (m : task_manager) (ids : gmap string Z)
    : task_manager :=
  {| queue_ := queue_ m; done_ := done_ m; pools_ := pools_ m;
     pool_ntIDs := ids; is_paused_ := is_paused_ m;
     stop_ := stop_ m; settings_ := settings_ m |}.

Definition with_done (m : task_manager) (d : list string) : task_manager :=
  {| queue_ := queue_ m; done_ := d; pools_ := pools_ m;
     pool_ntIDs := pool_ntIDs m; is_paused_ := is_paused_ m;
     stop_ := stop_ m; settings_ := settings_ m |}.

(** Modelled from the spec: the body of [task_manager::pools] is missing;
    it "returns a fully materialized, point-in-time copy of every pool". *)
Definition pools (m : task_manager) : gmap string (gmap Z string) :=
  pools_ m.

(** Modelled from the spec: the body of [task_manager::pool] is missing;
    it "returns a copy of one pool, or an empty mapping if the name is
    unknown". *)
Definition pool (p : string) (m : task_manager) : gmap Z string :=
  default ∅ (pools_ m !! p).

(** Modelled from the spec: the body of [task_manager::clear_pool] is
    missing; it "atomically empties one pool's entries; unaffected pools
    and their counters are untouched; clearing an unknown pool name is a
    no-op", and it "resets nothing". *)
Definition clear_pool (p : string) (m : task_manager) : task_manager :=
  match pools_ m !! p with
  | Some _ => with_pools m (<[p := ∅]> (pools_ m))
  | None => m
  end.

(** Modelled from the spec: the slot allocation of the worker's publish
    step is missing; slot ids are "assigned per-pool, starting at 0 and
    incrementing by 1 for each result deposited into that pool". *)
Definition next_slot (p : string) (m : task_manager) : Z :=
  default 0 (pool_ntIDs m !! p).

(** Modelled from the spec: the store half of the worker's publish step
    is missing; it must "allocate the next slot id for its target pool,
    and store the result string at that slot".  The slot handed out is
    returned with the new state. *)
Definition deposit (p r : string) (m : task_manager) : Z * task_manager :=
  let slot := next_slot p m in
  (slot,
   with_pool_ntIDs
     (with_pools m (<[p := <[slot := r]> (pool p m)]> (pools_ m)))
     (<[p := slot + 1]> (pool_ntIDs m))).

(** A run of deposits, oldest first, with the log of (pool, slot) pairs
    handed out. *)
Fixpoint deposit_all (ds : list (string * string)) (m : task_manager)
    : list (string * Z) * task_manager :=
  match ds with
  | [] => ([], m)
  | (p, r) :: ds' =>
      let '(slot, m1) := deposit p r m in
      let '(log, m2) := deposit_all ds' m1 in
      ((p, slot) :: log, m2)
  end.

(** The slots a log hands out in pool [p], in order. *)
Definition slots_of (p : string) (log : list (string * Z)) : list Z :=
  (filter (λ e, e.1 = p) log).*2.

(** How many deposits of a run go to pool [p]. *)
Definition deposits_into (p : string) (ds : list (string * string)) : nat :=
  length (filter (λ d, d.1 = p) ds).

(** The results a run deposits into pool [p], oldest first. *)
Definition results_into (p : string) (ds : list (string * string))
    : list string :=
  (filter (λ d, d.1 = p) ds).*2.

End Store.

(** ** The worker's Run and Publish steps *)
Module Worker.
Import Task Manager Store.

(** Modelled from the spec: how [_run_worker] names the target pool is
    missing; a task's [target_pool] is the "name of the pool that
    receives this task's result; defaults to the task's own name": the
    [POOL] setting when the task has one, its name otherwise. *)
Definition target_pool (t : task) : string :=
  default (name t) (setting_find t POOL).

(** Modelled from the spec: the publish step of [_run_worker] is missing;
    "append the task's name to the done set, allocate the next slot id
    for its target pool, and store the result string at that slot". *)
Definition publish (t : task) (r : string) (m : task_manager) : task_manager :=
  (deposit (target_pool t) r (with_done m (done_ m ++ [name t]))).2.

(** Modelled from the spec: the body of [_run_worker] is missing; for a
    popped task a worker must "invoke the task-start hook, then execute
    the task's function", and "if [the error code is] non-zero, invoke
    the task-fail hook with the task, worker id, and error code;
    otherwise invoke the task-stop hook", then publish "in both
    outcomes".  The hooks called are returned oldest first. *)
Definition run_task (wid : Z) (t : task) (m : task_manager)
    : task_manager * list hook_call :=
  let r := func t tt in
  let outcome :=
    if err r =? 0 then task_stop_callback t wid
    else task_fail_callback t wid (err r) in
  (publish t (ret r) m, [task_start_callback t wid; outcome]).

(** The same task with a function that returns [r]. *)
Definition returning (t : task) (r : retype) : task :=
  {| name := name t; func := λ _, r; settings := settings t; id := id t |}.

End Worker.

(** ** The task queue and the dependency resolver *)
Module Queue.
Import Task Manager.

(** Modelled from the spec: the dependency test of [_pop_queue] is
    missing; a task is eligible when "its [dependency_name] is empty, or
    that name already appears in the done set". *)
Definition eligible (done : list string) (t : task) : bool :=
  let dep := setting_index t AFTER in
  bool_decide (dep = EmptyString) || bool_decide (dep ∈ done).

(** What one look at the front of the queue decides. *)
Inductive inspection :=
  | Take (t : task) (rest : list task)
  | Rotate (q : list task)
  | Blocked
  | NoTask.

(** Modelled from the spec: the body of [_pop_queue] is missing.
    "Inspect the front of the queue"; an eligible front is removed and
    returned; otherwise, with IN_ORDER unset, "move the ineligible task
    to the back of the queue and re-inspect the new front", and with
    IN_ORDER set "do not skip it". *)
Definition inspect_front (settings : Z) (done : list string)
    (queue : list task) : inspection :=
  match queue with
  | [] => NoTask
  | t :: rest =>
      if eligible done t then Take t rest
      else if Settings.get Settings.IN_ORDER settings then Blocked
      else Rotate (rest ++ [t])
  end.

(** Modelled from the spec: the loop of [_pop_queue] is missing; the
    rotating scan re-inspects the new front, at most [fuel] times here.
    The result is the task taken, if any, and the queue left behind. *)
Fixpoint _pop_queue (fuel : nat) (settings : Z) (done : list string)
    (queue : list task) : option task * list task :=
  match fuel with
  | O => (None, queue)
  | S fuel' =>
      match inspect_front settings done queue with
      | Take t rest => (Some t, rest)
      | Rotate q => _pop_queue fuel' settings done q
      | Blocked | NoTask => (None, queue)
      end
  end.

(** [_pop_queue] on a manager: the queue is read and written back, the
    rest of the state is left alone. *)
Definition pop_queue_of (fuel : nat) (m : task_manager)
    : option task * task_manager :=
  let '(r, q) := _pop_queue fuel (settings_ m) (done_ m) (queue_ m) in
  (r,
   {| queue_ := q; done_ := done_ m; pools_ := pools_ m;
      pool_ntIDs := pool_ntIDs m; is_paused_ := is_paused_ m;
      stop_ := stop_ m; settings_ := settings_ m |}).

End Queue.

(** ** Sample tasks used to exercise the statements below *)
Module Samples.
Import Task.

(** [task{"B", f, { {AFTER, "A"} }}]: a dependency, no target pool. *)
Definition only_after : gmap task_settings string :=
  <[AFTER := "A"%string]> ∅.

Definition task_B_after_A : task :=
  make_task "B" (fun _ => {| ret := EmptyString; err := 0 |}) (Some only_after).

(** [task{"t", f}] with [f] returning the string "oops" and error 7. *)
Definition task_failing : task :=
  make_task "t" (fun _ => {| ret := "oops"; err := 7 |}) None.

(** [task{"a", f}]: no dependency. *)
Definition task_a : task :=
  make_task "a" (fun _ => {| ret := "ra"; err := 0 |}) None.

(** Three deposits, two of them into pool "p". *)
Definition three_deposits : list (string * string) :=
  [("p", "a"); ("q", "b"); ("p", "c")]%string.

End Samples.

(** ** Runs of [set] calls *)
Module Calls.
Import Settings.

(** A caller's successive [set(t, val)] calls, oldest first, applied to
    the settings word. *)
Definition set_all (calls : list (tm_settings * bool)) (settings_ : Z) : Z :=
  fold_left (fun s c => set c.1 c.2 s) calls settings_.

(** A call that cannot switch the mask [t] off: it passes [true], or its
    own mask covers [t]. *)
Definition spares (t : tm_settings) (c : tm_settings * bool) : Prop :=
  is_uint16 c.1 /\ (c.2 = true \/ Macros.EVAL c.1 t = true).

(** A call that cannot switch the mask [u] on: it passes [false], or its
    own mask shares no bit with [u]. *)
Definition avoids (u : tm_settings) (c : tm_settings * bool) : Prop :=
  is_uint16 c.1 /\ (c.2 = false \/ Z.land c.1 u = 0).

End Calls.

(** * Properties *)

(** ** Bit-level facts about the macros *)
Section MacroFacts.
Import Macros Settings.

Lemma uint16_testbit_high (s i : Z) :
  is_uint16 s -> 16 <= i -> Z.testbit s i = false.
Proof.
  intros [Hlo Hhi] Hi.
  destruct (Z.eq_dec s 0) as [-> | Hnz]; [apply Z.bits_0 |].
  apply Z.bits_above_log2; [lia |].
  assert (Z.log2 s < 16) by (apply Z.log2_lt_pow2; lia).
  lia.
Qed.

Lemma to_uint16_testbit (x i : Z) :
  0 <= i ->
  Z.testbit (to_uint16 x) i = Z.testbit x i && (i <? 16).
Proof.
  intros Hi. unfold to_uint16.
  destruct (Z.ltb_spec i 16).
  - rewrite Z.mod_pow2_bits_low by lia. now rewrite andb_true_r.
  - rewrite Z.mod_pow2_bits_high by lia. now rewrite andb_false_r.
Qed.

Lemma to_uint16_range (x : Z) : is_uint16 (to_uint16 x).
Proof. unfold is_uint16, to_uint16. apply Z.mod_pos_bound. lia. Qed.

(** [EVAL(x, y)] holds exactly when every bit of [y] is a bit of [x]. *)
Lemma EVAL_true_iff (x y : Z) :
  EVAL x y = true <->
  (forall i, 0 <= i -> Z.testbit y i = true -> Z.testbit x i = true).
Proof.
  unfold EVAL. rewrite Z.eqb_eq. split.
  - intros Heq i Hi Hy. rewrite <- Heq, Z.land_spec in Hy.
    now apply andb_true_iff in Hy as [? _].
  - intros Hbits. apply Z.bits_inj'. intros i Hi.
    rewrite Z.land_spec.
    destruct (Z.testbit y i) eqn:Hy.
    + now rewrite (Hbits i Hi Hy).
    + apply andb_false_r.
Qed.

(** [SET_ON] writes the bits of [y] into [x] and keeps the rest. *)
Lemma SET_ON_testbit (x y i : Z) :
  is_uint16 x -> is_uint16 y -> 0 <= i ->
  Z.testbit (SET_ON x y) i = Z.testbit x i || Z.testbit y i.
Proof.
  intros Hx Hy Hi. unfold SET_ON.
  rewrite to_uint16_testbit, Z.lor_spec by assumption.
  destruct (Z.ltb_spec i 16); [apply andb_true_r |].
  rewrite !uint16_testbit_high by (assumption || lia). reflexivity.
Qed.

(** The argument [set] hands to [SET_OFF] is already complemented, and
    [SET_OFF] complements it once more: the word is masked WITH [t]. *)
Lemma set_false_is_land (t s : Z) :
  is_uint16 s -> set t false s = Z.land s t.
Proof.
  intros Hs. unfold set, SET_OFF.
  rewrite Z.lnot_involutive.
  apply Z.bits_inj'. intros i Hi.
  rewrite to_uint16_testbit, Z.land_spec by assumption.
  destruct (Z.ltb_spec i 16); [apply andb_true_r |].
  rewrite uint16_testbit_high by (assumption || lia). reflexivity.
Qed.

Lemma set_range (t : Z) (v : bool) (s : Z) : is_uint16 (set t v s).
Proof. destruct v; apply to_uint16_range. Qed.

(** Switching a flag on works as documented. *)
Lemma set_true_get (f : flag) (s : Z) :
  is_uint16 s -> get (mask_of f) (set (mask_of f) true s) = true.
Proof.
  intros Hs. apply EVAL_true_iff. intros i Hi Hbit. unfold set.
  rewrite SET_ON_testbit; [| assumption | destruct f; vm_compute; intuition discriminate | assumption].
  rewrite Hbit. apply orb_true_r.
Qed.

(** Switching a flag on leaves the other flag as it was. *)
Lemma set_true_other (f : flag) (s : Z) :
  is_uint16 s ->
  get (mask_of (other f)) (set (mask_of f) true s) = get (mask_of (other f)) s.
Proof.
  intros Hs. apply eq_true_iff_eq. unfold get. rewrite !EVAL_true_iff.
  assert (Hf : is_uint16 (mask_of f)) by (destruct f; vm_compute; intuition discriminate).
  assert (Hdisj : forall i, Z.testbit (mask_of (other f)) i = true ->
                            Z.testbit (mask_of f) i = false).
  { intros i. destruct (Z.eq_dec i 0) as [-> | H0];
      [| destruct (Z.eq_dec i 1) as [-> | H1]].
    - destruct f; vm_compute; congruence.
    - destruct f; vm_compute; congruence.
    - intros _. destruct (Z.ltb_spec i 0); [now apply Z.testbit_neg_r |].
      destruct f; simpl.
      + change KILL_ON_EMPTY with 1.
        apply Z.bits_above_log2; [lia | change (Z.log2 1) with 0; lia].
      + change IN_ORDER with 2.
        apply Z.bits_above_log2; [lia | change (Z.log2 2) with 1; lia]. }
  unfold set. split; intros H i Hi Hbit.
  - specialize (H i Hi Hbit). rewrite SET_ON_testbit in H by assumption.
    rewrite (Hdisj i Hbit), orb_false_r in H. exact H.
  - rewrite SET_ON_testbit by assumption.
    rewrite (H i Hi Hbit). reflexivity.
Qed.

End MacroFacts.

(** ** The policy flags: [set], [get] and the initial word *)
Section SettingsClaims.
Import Macros Settings Manager.

(** Switching a flag off never changes what [get] reports for it: the
    mask that reaches [&=] is [t] itself, and [(s & t) & t = s & t]. *)
Lemma set_false_get_same (t s : Z) :
  is_uint16 s -> get t (set t false s) = get t s.
Proof.
  intros Hs. rewrite set_false_is_land by assumption.
  unfold get, EVAL. now rewrite <- Z.land_assoc, Z.land_diag.
Qed.

(** Switching a flag off clears the other flag. *)
Lemma set_false_other (f : flag) (s : Z) :
  is_uint16 s -> get (mask_of (other f)) (set (mask_of f) false s) = false.
Proof.
  intros Hs. rewrite set_false_is_land by assumption.
  unfold get, EVAL. apply Z.eqb_neq. intros Heq.
  assert (Hz : Z.land (mask_of f) (mask_of (other f)) = 0)
    by (destruct f; reflexivity).
  rewrite <- Z.land_assoc, Hz, Z.land_0_r in Heq.
  destruct f; discriminate Heq.
Qed.

(** C1, at the inputs where the code departs from it.  On a fresh
    manager [set(IN_ORDER, false)] followed by [get(IN_ORDER)] returns
    [true]; after [set(KILL_ON_EMPTY, true)], [set(KILL_ON_EMPTY, false)]
    followed by [get(KILL_ON_EMPTY)] returns [true] as well.  Only the
    [val = true] half of set-then-get holds ([set_true_get]). *)
Theorem set_false_then_get_reports_true :
  get IN_ORDER (set IN_ORDER false (settings_ fresh)) = true /\
  get KILL_ON_EMPTY
    (set KILL_ON_EMPTY false (set KILL_ON_EMPTY true (settings_ fresh))) = true.
Proof. split; reflexivity. Qed.

(** C2, at the inputs where the code departs from it.  A fresh manager
    reports IN_ORDER as set; after [set(KILL_ON_EMPTY, false)] it reports
    IN_ORDER as unset.  Likewise [set(IN_ORDER, false)] turns a set
    KILL_ON_EMPTY off. *)
Theorem set_false_clears_other_flag :
  get IN_ORDER (settings_ fresh) = true /\
  get IN_ORDER (set KILL_ON_EMPTY false (settings_ fresh)) = false /\
  get KILL_ON_EMPTY (set KILL_ON_EMPTY true (settings_ fresh)) = true /\
  get KILL_ON_EMPTY
    (set IN_ORDER false (set KILL_ON_EMPTY true (settings_ fresh))) = false.
Proof. repeat split; reflexivity. Qed.

(** C3 as stated fails: on a fresh manager [get(IN_ORDER)] is not
    [false]. *)
Lemma fresh_in_order_is_not_unset :
  get IN_ORDER (settings_ fresh) <> false.
Proof. vm_compute. discriminate. Qed.

(** C3, amended: the initial [settings_] word is [0xFFFE], so on a fresh
    manager, before any call to [set], [get(IN_ORDER)] returns [true]:
    the IN_ORDER policy starts out set. *)
Theorem fresh_in_order_is_set :
  settings_ fresh = 65534 /\ get IN_ORDER (settings_ fresh) = true.
Proof. split; reflexivity. Qed.

(** C9: on a fresh manager, before any call to [set],
    [get(KILL_ON_EMPTY)] returns [false]. *)
Theorem fresh_kill_on_empty_is_unset :
  get KILL_ON_EMPTY (settings_ fresh) = false.
Proof. reflexivity. Qed.

(** C10: [get] is conjunctive over mask bits: for every settings word
    and all masks [a], [b] (the two flags among them), [get] of the
    combined mask [a | b] is [true] exactly when [get a] and [get b]
    both are. *)
Theorem get_lor_is_conjunction (s : Z) (a b : tm_settings) :
  get (Z.lor a b) s = get a s && get b s.
Proof.
  apply eq_true_iff_eq. unfold get.
  rewrite andb_true_iff, !EVAL_true_iff. split.
  - intros H. split; intros i Hi Hbit; apply H; try assumption;
      rewrite Z.lor_spec, Hbit; [reflexivity | apply orb_true_r].
  - intros [Ha Hb] i Hi Hbit. rewrite Z.lor_spec in Hbit.
    apply orb_true_iff in Hbit as [Hbit | Hbit]; auto.
Qed.

End SettingsClaims.

(** ** The task container *)
Section TaskClaims.
Import Task.

(** What [POOL] holds after aggregate initialisation: the name when the
    settings are left to their default, the supplied map's entry
    otherwise. *)
Lemma make_task_pool (n : string) (f : unit -> retype)
    (s : option (gmap task_settings string)) :
  setting_find (make_task n f s) POOL =
  match s with
  | Some m => m !! POOL
  | None => Some n
  end.
Proof.
  unfold setting_find, make_task, default_task_settings; simpl.
  destruct s; [reflexivity |]. apply lookup_insert_eq.
Qed.

(** C8 as stated fails: [task{"B", f, { {AFTER, "A"} }}] is constructed
    with a name and without a target pool, and its settings have no
    [POOL] entry at all; [settings[POOL]] reads as the empty string, not
    as the name. *)
Lemma task_with_dependency_only_has_no_pool :
  supplies_pool (Some Samples.only_after) = false /\
  setting_find Samples.task_B_after_A POOL = None /\
  setting_index Samples.task_B_after_A POOL <> name Samples.task_B_after_A.
Proof.
  split; [| split].
  - reflexivity.
  - reflexivity.
  - unfold setting_index, Samples.task_B_after_A, Samples.only_after, make_task.
    simpl. rewrite lookup_insert_ne by discriminate.
    rewrite lookup_empty. discriminate.
Qed.

(** C8, amended: a task constructed with a name and a function only, its
    [settings] left to the default member initialiser, has its [POOL]
    setting equal to its own name (and an empty [AFTER]).  A task
    constructed with a settings map of its own has exactly the entries
    of that map: every key reads as the map has it, and a key the map
    lacks is missing from the task. *)
Theorem default_task_pool_is_name (n : string) (f : unit -> retype) :
  setting_find (make_task n f None) POOL = Some n /\
  setting_index (make_task n f None) POOL = name (make_task n f None) /\
  setting_index (make_task n f None) AFTER = EmptyString /\
  (forall m : gmap task_settings string,
     settings (make_task n f (Some m)) = m /\
     (forall k, setting_find (make_task n f (Some m)) k = m !! k) /\
     (forall k, m !! k = None ->
                setting_find (make_task n f (Some m)) k = None /\
                setting_index (make_task n f (Some m)) k = EmptyString)).
Proof.
  split; [| split; [| split]].
  - apply make_task_pool.
  - unfold setting_index. fold (setting_find (make_task n f None) POOL).
    now rewrite make_task_pool.
  - reflexivity.
  - intros m. split; [reflexivity | split; [reflexivity |]].
    intros k Hk. unfold setting_index, setting_find, make_task; simpl.
    now rewrite Hk.
Qed.

End TaskClaims.

(** ** The result store: [clear_pool] and slot allocation *)
Section StoreClaims.
Import Task Manager Store.

(** C5: [clear_pool p] leaves pool [p] reading as the empty mapping,
    leaves every other pool's entries as they were, leaves every slot-id
    counter (that of [p] included) as it was, and changes nothing at all
    when [p] names no pool. *)
Theorem clear_pool_empties_one_pool (m : task_manager) (p : string) :
  pool p (clear_pool p m) = ∅ /\
  (forall q, q <> p -> pool q (clear_pool p m) = pool q m /\
                       pools (clear_pool p m) !! q = pools m !! q) /\
  pool_ntIDs (clear_pool p m) = pool_ntIDs m /\
  (pools m !! p = None -> clear_pool p m = m).
Proof.
  unfold clear_pool, pool, pools.
  destruct (pools_ m !! p) as [old |] eqn:Hp; simpl.
  - rewrite lookup_insert_eq. repeat split; try reflexivity.
    + now rewrite lookup_insert_ne by congruence.
    + now rewrite lookup_insert_ne by congruence.
    + discriminate.
  - rewrite Hp. repeat split; reflexivity.
Qed.

(** One deposit moves the counter of its own pool up by one and leaves
    the counters of the other pools alone. *)
Lemma next_slot_deposit (p q r : string) (m : task_manager) :
  next_slot q (deposit p r m).2 =
  if decide (p = q) then next_slot q m + 1 else next_slot q m.
Proof.
  unfold deposit, next_slot; simpl.
  rewrite lookup_insert. destruct (decide (p = q)) as [-> | Hne]; reflexivity.
Qed.

(** [deposit_all] one deposit at a time. *)
Lemma deposit_all_cons (p r : string) (ds : list (string * string))
    (m : task_manager) :
  deposit_all ((p, r) :: ds) m =
  ((p, next_slot p m) :: (deposit_all ds (deposit p r m).2).1,
   (deposit_all ds (deposit p r m).2).2).
Proof.
  cbn [deposit_all]. unfold deposit. cbv zeta. cbn [fst snd].
  now destruct (deposit_all ds _).
Qed.

(** The slots a run hands out in one pool are consecutive, from the
    pool's counter on; the counter ends that many higher. *)
Lemma deposit_all_slots (ds : list (string * string)) (p : string) :
  forall m : task_manager,
    slots_of p (deposit_all ds m).1 =
      seqZ (next_slot p m) (Z.of_nat (deposits_into p ds)) /\
    next_slot p (deposit_all ds m).2 =
      next_slot p m + Z.of_nat (deposits_into p ds).
Proof.
  unfold slots_of, deposits_into.
  induction ds as [| [q r] ds IH]; intros m.
  - simpl. split; [reflexivity | lia].
  - rewrite deposit_all_cons. cbn [fst snd].
    destruct (IH (deposit q r m).2) as [IHs IHn].
    rewrite IHn, !filter_cons, next_slot_deposit in *. cbn [fst snd].
    destruct (decide (q = p)) as [-> | Hne].
    + cbn [fmap list_fmap length snd]. rewrite IHs. split; [| lia].
      rewrite (seqZ_cons (next_slot p m)) by lia.
      f_equal. f_equal; lia.
    + split; [exact IHs | reflexivity].
Qed.

(** One deposit writes one slot of its own pool and leaves the other
    pools alone. *)
Lemma pool_deposit (p q r : string) (m : task_manager) :
  pool q (deposit p r m).2 =
  if decide (p = q) then <[next_slot p m := r]> (pool p m) else pool q m.
Proof.
  unfold deposit, pool; simpl.
  rewrite lookup_insert. destruct (decide (p = q)) as [-> | Hne]; reflexivity.
Qed.

(** Slots numbered from [a] on leave every slot below [a] free. *)
Lemma slots_from_above (a k c : Z) (rs : list string) :
  c < a -> (list_to_map (zip (seqZ a k) rs) : gmap Z string) !! c = None.
Proof.
  intros Hlt. apply not_elem_of_list_to_map_1. intros Hin.
  apply list_elem_of_fmap in Hin as [[x y] [Hc Hin]]. simpl in Hc. subst x.
  apply elem_of_zip_l, elem_of_seqZ in Hin. lia.
Qed.

Lemma length_results_into (p : string) (ds : list (string * string)) :
  length (results_into p ds) = deposits_into p ds.
Proof. unfold results_into, deposits_into. apply length_fmap. Qed.

(** What a run leaves in one pool: its results, oldest first, at
    consecutive slots from the pool's counter on, laid over what the pool
    held. *)
Lemma deposit_all_pool (ds : list (string * string)) (p : string) :
  forall m : task_manager,
    pool p (deposit_all ds m).2 =
    list_to_map (zip (seqZ (next_slot p m) (Z.of_nat (deposits_into p ds)))
                     (results_into p ds)) ∪ pool p m.
Proof.
  induction ds as [| [q r] ds IH]; intros m.
  - cbn. rewrite seqZ_nil by lia. cbn. now rewrite (left_id_L ∅ (∪)).
  - rewrite deposit_all_cons. cbn [snd].
    rewrite IH, next_slot_deposit, pool_deposit.
    unfold results_into, deposits_into. rewrite !filter_cons. cbn [fst].
    destruct (decide (q = p)) as [-> | Hne]; [| reflexivity].
    cbn [fmap list_fmap length snd].
    rewrite (seqZ_cons (next_slot p m)) by lia.
    replace (Z.pred (Z.of_nat (S (length (filter (λ d, d.1 = p) ds)))))
      with (Z.of_nat (length (filter (λ d, d.1 = p) ds))) by lia.
    replace (Z.succ (next_slot p m)) with (next_slot p m + 1) by lia.
    cbn [zip zip_with]. rewrite list_to_map_cons.
    rewrite <- insert_union_l.
    now rewrite insert_union_r by (apply slots_from_above; lia).
Qed.

(** C6: in a freshly created pool (no entries and no counter yet), any
    run of deposits numbers the results deposited into that pool
    [0, 1, 2, ...], one slot per result and in the order deposited,
    whatever is deposited into other pools in between.  The slot ids
    handed out are pairwise distinct, and afterwards the pool holds
    exactly those results, the [i]-th at slot [i]: as many entries as
    results, none overwritten.  The counter ends at the number of
    results.  The task id plays no part in the slot: publishing a task
    gives the same store whatever its id. *)
Theorem slots_start_at_zero_and_step_by_one
    (m : task_manager) (ds : list (string * string)) (p : string) :
  pools m !! p = None ->
  pool_ntIDs m !! p = None ->
  slots_of p (deposit_all ds m).1 = seqZ 0 (Z.of_nat (deposits_into p ds)) /\
  NoDup (slots_of p (deposit_all ds m).1) /\
  pool p (deposit_all ds m).2 =
    list_to_map (zip (seqZ 0 (Z.of_nat (deposits_into p ds)))
                     (results_into p ds)) /\
  (forall (i : nat) (r : string),
     results_into p ds !! i = Some r ->
     pool p (deposit_all ds m).2 !! Z.of_nat i = Some r) /\
  size (pool p (deposit_all ds m).2) = deposits_into p ds /\
  next_slot p (deposit_all ds m).2 = Z.of_nat (deposits_into p ds) /\
  (forall r, (deposit p r m).1 = 0 /\
             pool p (deposit p r m).2 = {[ 0 := r ]} /\
             next_slot p (deposit p r m).2 = 1) /\
  (forall (t : task) (i : Z) (r : string),
     Worker.publish (with_id t i) r m = Worker.publish t r m).
Proof.
  intros Hpool Hnew.
  assert (H0 : next_slot p m = 0) by (unfold next_slot; now rewrite Hnew).
  assert (Hempty : pool p m = ∅) by (unfold pool, pools in *; now rewrite Hpool).
  destruct (deposit_all_slots ds p m) as [Hs Hn]. rewrite H0 in Hs, Hn.
  pose proof (deposit_all_pool ds p m) as Hp.
  rewrite H0, Hempty, (right_id_L ∅ (∪)) in Hp.
  assert (Hfst : (zip (seqZ 0 (Z.of_nat (deposits_into p ds)))
                      (results_into p ds)).*1 =
                 seqZ 0 (Z.of_nat (deposits_into p ds))).
  { apply fst_zip. rewrite length_seqZ, length_results_into. lia. }
  split; [exact Hs | split; [| split; [exact Hp | split; [| split; [| split;
    [| split]]]]]].
  - rewrite Hs. apply NoDup_seqZ.
  - intros i r Hr. rewrite Hp.
    apply elem_of_list_to_map_1; [rewrite Hfst; apply NoDup_seqZ |].
    apply list_elem_of_lookup. exists i.
    apply lookup_zip_with_Some. exists (Z.of_nat i), r.
    split; [reflexivity | split; [| exact Hr]].
    apply lookup_seqZ. split; [lia |].
    apply lookup_lt_Some in Hr. rewrite length_results_into in Hr. lia.
  - rewrite Hp, map_size_list_to_map by (rewrite Hfst; apply NoDup_seqZ).
    rewrite length_zip, length_seqZ, length_results_into. lia.
  - rewrite Hn. lia.
  - intros r. split; [exact H0 | split].
    + rewrite pool_deposit, decide_True by reflexivity.
      now rewrite H0, Hempty, insert_empty.
    + rewrite next_slot_deposit, H0. now rewrite decide_True.
  - reflexivity.
Qed.

(** Three deposits on a fresh manager, two of them into pool "p". *)
Lemma slots_start_at_zero_and_step_by_one_witness :
  slots_of "p" (deposit_all Samples.three_deposits fresh).1 =
    seqZ 0 (Z.of_nat (deposits_into "p" Samples.three_deposits)) /\
  NoDup (slots_of "p" (deposit_all Samples.three_deposits fresh).1) /\
  pool "p" (deposit_all Samples.three_deposits fresh).2 =
    list_to_map (zip (seqZ 0 (Z.of_nat (deposits_into "p" Samples.three_deposits)))
                     (results_into "p" Samples.three_deposits)) /\
  (forall (i : nat) (r : string),
     results_into "p" Samples.three_deposits !! i = Some r ->
     pool "p" (deposit_all Samples.three_deposits fresh).2 !! Z.of_nat i = Some r) /\
  size (pool "p" (deposit_all Samples.three_deposits fresh).2) =
    deposits_into "p" Samples.three_deposits /\
  next_slot "p" (deposit_all Samples.three_deposits fresh).2 =
    Z.of_nat (deposits_into "p" Samples.three_deposits) /\
  (forall r, (deposit "p" r fresh).1 = 0 /\
             pool "p" (deposit "p" r fresh).2 = {[ 0 := r ]} /\
             next_slot "p" (deposit "p" r fresh).2 = 1) /\
  (forall (t : task) (i : Z) (r : string),
     Worker.publish (with_id t i) r fresh = Worker.publish t r fresh).
Proof.
  apply (slots_start_at_zero_and_step_by_one fresh
           Samples.three_deposits "p"%string); reflexivity.
Defined.

End StoreClaims.

(** ** The worker: a failing task *)
Section WorkerClaims.
Import Task Manager Store Worker.

(** What publishing does to the done set and to the target pool. *)
Lemma publish_effect (t : task) (r : string) (m : task_manager) :
  done_ (publish t r m) = done_ m ++ [name t] /\
  pool (target_pool t) (publish t r m) !! next_slot (target_pool t) m = Some r /\
  next_slot (target_pool t) (publish t r m) = next_slot (target_pool t) m + 1.
Proof.
  unfold publish, deposit, pool, next_slot; simpl.
  rewrite !lookup_insert_eq. simpl. rewrite lookup_insert_eq. auto.
Qed.

(** The pool a task's result goes to, read off its settings. *)
Lemma target_pool_cases (t : task) (p : string) :
  setting_find t POOL = Some p \/ (setting_find t POOL = None /\ p = name t) ->
  target_pool t = p.
Proof.
  unfold target_pool. intros [H | [H ->]]; now rewrite H.
Qed.

(** C4: when the task's function returns a non-zero error code, the
    worker's hook calls for that task are the start hook and then the
    fail hook with the task, the worker id and that code; the stop hook
    is not called; the task's name is appended to the done set; the
    result string is stored at the next slot of the target pool (the
    task's [POOL] setting, or its name when it has none), every other
    slot and every other pool staying as it was, and that pool's counter
    goes up by one; queue, settings and the pause and stop marks are
    untouched; and the manager ends in the very state a successful run
    returning the same string leaves, where the stop hook is called
    instead. *)
Theorem failed_task_is_reported_and_published
    (wid : Z) (t : task) (m : task_manager) :
  err (func t tt) <> 0 ->
  (run_task wid t m).2 =
    [task_start_callback t wid; task_fail_callback t wid (err (func t tt))] /\
  (forall t' w, task_stop_callback t' w ∉ (run_task wid t m).2) /\
  done_ (run_task wid t m).1 = done_ m ++ [name t] /\
  (forall p : string,
     setting_find t POOL = Some p \/ (setting_find t POOL = None /\ p = name t) ->
     pools (run_task wid t m).1 =
       <[p := <[next_slot p m := ret (func t tt)]> (pool p m)]> (pools m) /\
     pool p (run_task wid t m).1 !! next_slot p m = Some (ret (func t tt)) /\
     pool_ntIDs (run_task wid t m).1 =
       <[p := next_slot p m + 1]> (pool_ntIDs m)) /\
  (queue_ (run_task wid t m).1 = queue_ m /\
   settings_ (run_task wid t m).1 = settings_ m /\
   is_paused_ (run_task wid t m).1 = is_paused_ m /\
   stop_ (run_task wid t m).1 = stop_ m) /\
  (run_task wid t m).1 =
    (run_task wid (returning t {| ret := ret (func t tt); err := 0 |}) m).1 /\
  (run_task wid (returning t {| ret := ret (func t tt); err := 0 |}) m).2 =
    [task_start_callback (returning t {| ret := ret (func t tt); err := 0 |}) wid;
     task_stop_callback (returning t {| ret := ret (func t tt); err := 0 |}) wid].
Proof.
  intros Herr.
  assert (Hcalls : (run_task wid t m).2 =
    [task_start_callback t wid; task_fail_callback t wid (err (func t tt))]).
  { unfold run_task; simpl. apply Z.eqb_neq in Herr. now rewrite Herr. }
  destruct (publish_effect t (ret (func t tt)) m) as (Hdone & Hslot & _).
  split; [exact Hcalls | split; [| split; [| split; [| split; [| split]]]]].
  - intros t' w Hin. rewrite Hcalls in Hin.
    apply elem_of_cons in Hin as [Heq | Hin]; [discriminate |].
    apply elem_of_cons in Hin as [Heq | Hin]; [discriminate |].
    now apply elem_of_nil in Hin.
  - exact Hdone.
  - intros p Hp. apply target_pool_cases in Hp. subst p.
    split; [reflexivity | split; [exact Hslot | reflexivity]].
  - repeat split.
  - reflexivity.
  - reflexivity.
Qed.

(** A task named "t" whose function returns error code 7, run by worker
    0 on a fresh manager. *)
Lemma failed_task_is_reported_and_published_witness :
  (run_task 0 Samples.task_failing fresh).2 =
    [task_start_callback Samples.task_failing 0;
     task_fail_callback Samples.task_failing 0
       (err (func Samples.task_failing tt))] /\
  (forall t' w,
     task_stop_callback t' w ∉ (run_task 0 Samples.task_failing fresh).2) /\
  done_ (run_task 0 Samples.task_failing fresh).1 =
    done_ fresh ++ [name Samples.task_failing] /\
  (forall p : string,
     setting_find Samples.task_failing POOL = Some p \/
     (setting_find Samples.task_failing POOL = None /\
      p = name Samples.task_failing) ->
     pools (run_task 0 Samples.task_failing fresh).1 =
       <[p := <[next_slot p fresh := ret (func Samples.task_failing tt)]>
                (pool p fresh)]> (pools fresh) /\
     pool p (run_task 0 Samples.task_failing fresh).1 !! next_slot p fresh =
       Some (ret (func Samples.task_failing tt)) /\
     pool_ntIDs (run_task 0 Samples.task_failing fresh).1 =
       <[p := next_slot p fresh + 1]> (pool_ntIDs fresh)) /\
  (queue_ (run_task 0 Samples.task_failing fresh).1 = queue_ fresh /\
   settings_ (run_task 0 Samples.task_failing fresh).1 = settings_ fresh /\
   is_paused_ (run_task 0 Samples.task_failing fresh).1 = is_paused_ fresh /\
   stop_ (run_task 0 Samples.task_failing fresh).1 = stop_ fresh) /\
  (run_task 0 Samples.task_failing fresh).1 =
    (run_task 0
       (returning Samples.task_failing
          {| ret := ret (func Samples.task_failing tt); err := 0 |})
       fresh).1 /\
  (run_task 0
     (returning Samples.task_failing
        {| ret := ret (func Samples.task_failing tt); err := 0 |})
     fresh).2 =
    [task_start_callback
       (returning Samples.task_failing
          {| ret := ret (func Samples.task_failing tt); err := 0 |}) 0;
     task_stop_callback
       (returning Samples.task_failing
          {| ret := ret (func Samples.task_failing tt); err := 0 |}) 0].
Proof.
  apply (failed_task_is_reported_and_published 0 Samples.task_failing fresh).
  simpl. lia.
Defined.

End WorkerClaims.

(** ** The dependency resolver *)
Section QueueClaims.
Import Task Manager Queue.

Lemma eligible_true_iff (done : list string) (t : task) :
  eligible done t = true <->
  setting_index t AFTER = EmptyString \/ setting_index t AFTER ∈ done.
Proof.
  unfold eligible. rewrite orb_true_iff, !bool_decide_eq_true. reflexivity.
Qed.

(** With the initial settings word an ineligible front is not rotated
    past: the resolver reports it as blocking. *)
Lemma fresh_front_policy (done : list string) (t : task) (rest : list task) :
  inspect_front (settings_ fresh) done (t :: rest) =
  if eligible done t then Take t rest else Blocked.
Proof. unfold inspect_front. now destruct (eligible done t). Qed.

(** C7: on a non-empty queue whose front task has an empty dependency,
    or a dependency that is in the done set, [_pop_queue] returns that
    task and leaves the rest of the queue, in order; this holds for every
    settings word, so whatever IN_ORDER and KILL_ON_EMPTY are. *)
Theorem pop_queue_takes_eligible_front
    (fuel : nat) (s : Z) (done : list string) (t : task) (rest : list task) :
  setting_index t AFTER = EmptyString \/ setting_index t AFTER ∈ done ->
  _pop_queue (S fuel) s done (t :: rest) = (Some t, rest).
Proof.
  intros Hel. apply eligible_true_iff in Hel.
  cbn [_pop_queue inspect_front]. now rewrite Hel.
Qed.

(** A task with the default (empty) dependency in front of one whose
    dependency is unmet, with both policy flags set. *)
Lemma pop_queue_takes_eligible_front_witness :
  _pop_queue 1 3 [] [Samples.task_a; Samples.task_B_after_A] =
  (Some Samples.task_a, [Samples.task_B_after_A]).
Proof.
  apply (pop_queue_takes_eligible_front
           0 3 [] Samples.task_a [Samples.task_B_after_A]).
  left. reflexivity.
Defined.

End QueueClaims.

(** ** More on [set] and [get]: what the two branches of [set] do to the
    whole settings word *)
Section SettingsAlgebra.
Import Macros Settings Manager.

(** Case analysis on every bit that occurs in a bitwise goal. *)
Ltac bits_cases :=
  repeat match goal with
         | |- context [Z.testbit ?x ?i] => destruct (Z.testbit x i)
         end;
  try reflexivity; try discriminate.

Ltac bitwise :=
  apply Z.bits_inj'; intros ?i ?Hi;
  repeat (rewrite Z.land_spec || rewrite Z.lor_spec); bits_cases.

(** On in-range operands [|=] loses nothing in the conversion back to
    [uint16_t]. *)
Lemma set_true_is_lor (t s : Z) :
  is_uint16 s -> is_uint16 t -> set t true s = Z.lor s t.
Proof.
  intros Hs Ht. apply Z.bits_inj'. intros i Hi. unfold set.
  now rewrite SET_ON_testbit, Z.lor_spec.
Qed.

Lemma lor_uint16 (a b : Z) : is_uint16 a -> is_uint16 b -> is_uint16 (Z.lor a b).
Proof.
  intros Ha Hb. rewrite <- (set_true_is_lor b a) by assumption.
  apply set_range.
Qed.

(** How [EVAL] reads a word after [|] and after [&]. *)
Lemma EVAL_lor_keeps (s t u : Z) :
  EVAL s u = true -> EVAL (Z.lor s t) u = true.
Proof.
  rewrite !EVAL_true_iff. intros H i Hi Hu.
  rewrite Z.lor_spec, (H i Hi Hu). reflexivity.
Qed.

Lemma EVAL_lor_disjoint (s t u : Z) :
  Z.land t u = 0 -> EVAL (Z.lor s t) u = EVAL s u.
Proof.
  intros Hdisj. apply eq_true_iff_eq. rewrite !EVAL_true_iff.
  assert (Hoff : forall i, Z.testbit u i = true -> Z.testbit t i = false).
  { intros i Hu.
    assert (Hb : Z.testbit (Z.land t u) i = false) by (rewrite Hdisj; apply Z.bits_0).
    rewrite Z.land_spec, Hu, andb_true_r in Hb. exact Hb. }
  split; intros H i Hi Hu.
  - specialize (H i Hi Hu). rewrite Z.lor_spec, (Hoff i Hu), orb_false_r in H.
    exact H.
  - rewrite Z.lor_spec, (H i Hi Hu). reflexivity.
Qed.

Lemma EVAL_land_both (s t u : Z) :
  EVAL (Z.land s t) u = EVAL s u && EVAL t u.
Proof.
  apply eq_true_iff_eq.
  rewrite andb_true_iff, !EVAL_true_iff. split.
  - intros H. split; intros i Hi Hu; specialize (H i Hi Hu);
      rewrite Z.land_spec in H; apply andb_true_iff in H; tauto.
  - intros [H1 H2] i Hi Hu.
    rewrite Z.land_spec, (H1 i Hi Hu), (H2 i Hi Hu). reflexivity.
Qed.

(** [get] with the empty mask holds in every state. *)
Theorem get_empty_mask (s : Z) : get 0 s = true.
Proof. unfold get, EVAL. now rewrite Z.land_0_r. Qed.

(** A mask that reads true makes every mask within it read true. *)
Theorem get_submask (s : Z) (a b : tm_settings) :
  get a s = true -> EVAL a b = true -> get b s = true.
Proof.
  unfold get. rewrite !EVAL_true_iff. intros Hsa Hab i Hi Hb. auto.
Qed.

Lemma get_submask_witness : get 2 7 = true.
Proof.
  apply (get_submask 7 6 2); reflexivity.
Defined.

(** After [set(t, true)], [get(t)] returns [true], for every mask. *)
Theorem set_true_then_get (t s : Z) :
  is_uint16 s -> is_uint16 t -> get t (set t true s) = true.
Proof.
  intros Hs Ht. rewrite set_true_is_lor by assumption.
  unfold get, EVAL. apply Z.eqb_eq. bitwise.
Qed.

Lemma set_true_then_get_witness : get 3 (set 3 true 4) = true.
Proof.
  apply (set_true_then_get 3 4); unfold is_uint16; lia.
Defined.

(** [set(t, true)] switches nothing off: a mask that read true before
    reads true afterwards. *)
Theorem set_true_keeps_true (t u s : Z) :
  is_uint16 s -> is_uint16 t ->
  get u s = true -> get u (set t true s) = true.
Proof.
  intros Hs Ht. rewrite set_true_is_lor by assumption.
  apply EVAL_lor_keeps.
Qed.

Lemma set_true_keeps_true_witness : get 2 (set 1 true 65534) = true.
Proof.
  apply (set_true_keeps_true 1 2 65534);
    [unfold is_uint16; lia | unfold is_uint16; lia | reflexivity].
Defined.

(** [set(t, true)] does not change what [get] reports for a mask that
    shares no bit with [t]. *)
Theorem set_true_frame (t u s : Z) :
  is_uint16 s -> is_uint16 t -> Z.land t u = 0 ->
  get u (set t true s) = get u s.
Proof.
  intros Hs Ht Hdisj. rewrite set_true_is_lor by assumption.
  now apply EVAL_lor_disjoint.
Qed.

Lemma set_true_frame_witness : get 2 (set 1 true 4) = get 2 4.
Proof.
  apply (set_true_frame 1 2 4);
    [unfold is_uint16; lia | unfold is_uint16; lia | reflexivity].
Defined.

(** Two [set(_, true)] calls commute, and one call with the combined
    mask does the work of both. *)
Theorem set_true_commutes_and_combines (a b s : Z) :
  is_uint16 s -> is_uint16 a -> is_uint16 b ->
  set a true (set b true s) = set b true (set a true s) /\
  set (Z.lor a b) true s = set a true (set b true s).
Proof.
  intros Hs Ha Hb.
  rewrite (set_true_is_lor b s), (set_true_is_lor a s) by assumption.
  rewrite !set_true_is_lor by (try apply lor_uint16; assumption).
  split; bitwise.
Qed.

Lemma set_true_commutes_and_combines_witness :
  set 1 true (set 2 true 8) = set 2 true (set 1 true 8) /\
  set (Z.lor 1 2) true 8 = set 1 true (set 2 true 8).
Proof.
  apply (set_true_commutes_and_combines 1 2 8); unfold is_uint16; lia.
Defined.

(** What [set(t, false)] does to every query: afterwards a mask [u]
    reads true exactly when it read true before and lies within [t]. *)
Theorem set_false_then_get_any (t u s : Z) :
  is_uint16 s ->
  get u (set t false s) = get u s && EVAL t u.
Proof.
  intros Hs. rewrite set_false_is_land by assumption.
  apply EVAL_land_both.
Qed.

Lemma set_false_then_get_any_witness :
  get 2 (set 1 false 3) = get 2 3 && EVAL 1 2.
Proof.
  apply (set_false_then_get_any 1 2 3). unfold is_uint16; lia.
Defined.

(** [set(t, true)] followed by [set(t, false)], or the other way round,
    leaves the settings word equal to [t]: whatever else was set is
    gone. *)
Theorem set_on_off_leaves_mask (t s : Z) :
  is_uint16 s -> is_uint16 t ->
  set t false (set t true s) = t /\ set t true (set t false s) = t.
Proof.
  intros Hs Ht. split.
  - rewrite set_false_is_land by apply set_range.
    rewrite set_true_is_lor by assumption. bitwise.
  - rewrite set_true_is_lor by (assumption || apply set_range).
    rewrite set_false_is_land by assumption. bitwise.
Qed.

Lemma set_on_off_leaves_mask_witness :
  set 1 false (set 1 true 65534) = 1 /\ set 1 true (set 1 false 65534) = 1.
Proof.
  apply (set_on_off_leaves_mask 1 65534); unfold is_uint16; lia.
Defined.

(** Repeating a [set] call changes nothing further, for either value. *)
Theorem set_idempotent (t : Z) (v : bool) (s : Z) :
  is_uint16 s -> is_uint16 t ->
  set t v (set t v s) = set t v s.
Proof.
  intros Hs Ht. destruct v.
  - rewrite (set_true_is_lor t s) by assumption.
    rewrite set_true_is_lor by (try apply lor_uint16; assumption). bitwise.
  - rewrite (set_false_is_land t s) by assumption.
    rewrite <- (set_false_is_land t s) at 1 by assumption.
    rewrite set_false_is_land by apply set_range.
    rewrite set_false_is_land by assumption. bitwise.
Qed.

Lemma set_idempotent_witness : set 2 false (set 2 false 7) = set 2 false 7.
Proof.
  apply (set_idempotent 2 false 7); unfold is_uint16; lia.
Defined.

(** The initial word has every bit but the lowest set: on a fresh
    manager [get(mask)] is [true] exactly for the masks that leave
    KILL_ON_EMPTY out. *)
Theorem fresh_get_any_mask (mask : Z) :
  is_uint16 mask ->
  get mask (settings_ fresh) = negb (Z.testbit mask 0).
Proof.
  intros Hm. apply eq_true_iff_eq. unfold get.
  rewrite EVAL_true_iff, negb_true_iff.
  change (settings_ fresh) with (Z.shiftl (Z.ones 15) 1).
  split.
  - intros H. destruct (Z.testbit mask 0) eqn:H0; [| reflexivity].
    specialize (H 0 (Z.le_refl 0) H0). discriminate H.
  - intros H0 i Hi Hbit.
    assert (i <> 0) by (intros ->; congruence).
    assert (i < 16).
    { destruct (Z.ltb_spec i 16); [assumption |].
      rewrite uint16_testbit_high in Hbit by (assumption || lia). discriminate. }
    rewrite Z.shiftl_spec, Z.testbit_ones_nonneg by lia.
    apply Z.ltb_lt. lia.
Qed.

Lemma fresh_get_any_mask_witness :
  get 3 (settings_ fresh) = negb (Z.testbit 3 0).
Proof.
  apply (fresh_get_any_mask 3). unfold is_uint16; lia.
Defined.

End SettingsAlgebra.

(** ** Runs of [set] calls: what can and what cannot flip a flag *)
Section CallRuns.
Import Macros Settings Manager Calls.

Lemma set_all_range (calls : list (tm_settings * bool)) (s : Z) :
  is_uint16 s -> is_uint16 (set_all calls s).
Proof.
  revert s. induction calls as [| c calls IH]; intros s Hs; [exact Hs |].
  apply IH, set_range.
Qed.

(** A mask that reads true keeps reading true through any run of calls
    that each pass [true] or name a mask covering it; in particular no
    run of calls on the flag itself switches it off. *)
Theorem set_all_keeps_on (t : tm_settings) (calls : list (tm_settings * bool))
    (s : Z) :
  is_uint16 s -> Forall (spares t) calls ->
  get t s = true -> get t (set_all calls s) = true.
Proof.
  intros Hs Hall. revert s Hs.
  induction Hall as [| [u v] calls [Hu Hc] _ IH]; intros s Hs Hget; [exact Hget |].
  simpl in Hu, Hc. apply IH; [apply set_range |]. simpl.
  destruct v.
  - rewrite set_true_is_lor by assumption. now apply EVAL_lor_keeps.
  - destruct Hc as [Hc | Hc]; [discriminate |].
    rewrite set_false_is_land by assumption. unfold get in *.
    now rewrite EVAL_land_both, Hget, Hc.
Qed.

Lemma set_all_keeps_on_witness :
  get 1 (set_all [(1, false); (2, true); (1, true); (1, false)] 1) = true.
Proof.
  apply (set_all_keeps_on 1 [(1, false); (2, true); (1, true); (1, false)] 1).
  - unfold is_uint16; lia.
  - repeat (constructor;
      [split; [unfold is_uint16; simpl; lia
              | first [left; reflexivity | right; reflexivity]] |]).
    constructor.
  - reflexivity.
Defined.

(** A mask that reads false keeps reading false through any run of
    calls that each pass [false] or name a mask sharing no bit with
    it. *)
Theorem set_all_keeps_off (u : tm_settings) (calls : list (tm_settings * bool))
    (s : Z) :
  is_uint16 s -> Forall (avoids u) calls ->
  get u s = false -> get u (set_all calls s) = false.
Proof.
  intros Hs Hall. revert s Hs.
  induction Hall as [| [t v] calls [Ht Hc] _ IH]; intros s Hs Hget; [exact Hget |].
  simpl in Ht, Hc. apply IH; [apply set_range |]. simpl.
  destruct v.
  - destruct Hc as [Hc | Hc]; [discriminate |].
    rewrite set_true_is_lor by assumption. unfold get in *.
    now rewrite EVAL_lor_disjoint.
  - rewrite set_false_is_land by assumption. unfold get in *.
    now rewrite EVAL_land_both, Hget.
Qed.

Lemma set_all_keeps_off_witness :
  get 1 (set_all [(2, true); (1, false); (2, false)] 65534) = false.
Proof.
  apply (set_all_keeps_off 1 [(2, true); (1, false); (2, false)] 65534).
  - unfold is_uint16; lia.
  - repeat (constructor;
      [split; [unfold is_uint16; simpl; lia
              | first [left; reflexivity | right; reflexivity]] |]).
    constructor.
  - reflexivity.
Defined.

End CallRuns.

(** ** Sample runs of the switch-off branch *)
Section SwitchOffSamples.
Import Settings.

(** With both flags set, [set(KILL_ON_EMPTY, false)] leaves
    [get(KILL_ON_EMPTY)] as it was. *)
Lemma set_false_get_same_witness :
  get KILL_ON_EMPTY (set KILL_ON_EMPTY false 3) = get KILL_ON_EMPTY 3.
Proof.
  apply (set_false_get_same KILL_ON_EMPTY 3). unfold is_uint16; lia.
Defined.

(** With both flags set, [set(KILL_ON_EMPTY, false)] leaves IN_ORDER
    reading [false]. *)
Lemma set_false_other_witness :
  get (mask_of (other FKillOnEmpty)) (set (mask_of FKillOnEmpty) false 3) = false.
Proof.
  apply (set_false_other FKillOnEmpty 3). unfold is_uint16; lia.
Defined.

End SwitchOffSamples.
